(** * ember-authentication: token-based authentication with an Ember service

    A shallow embedding of the application's code:

    - [server/index.js]: the body parser in front of the routes and the
      Express handlers [GET /api/codes] and [POST /token];
    - [app/services/auth-manager.js]: the [accessToken] field,
      [authenticate], [invalidate] and the computed [isAuthenticated];
    - [app/adapter/application.js]: the computed [headers];
    - [app/routes/secret.js] and [app/routes/application.js]: the [model]
      hook, with the Ember Data store as far as [findAll] uses it, and the
      [error] action;
    - [app/components/login-page.js]: the [authenticate] action, which hands
      its two inputs to the service and shows the outcome with [alert].

    JavaScript values are modelled as far as these handlers can see them:
    the body parser ([bodyParser.urlencoded({ extended: true })]) produces
    strings, arrays and objects, a missing property reads as [undefined],
    and [accessToken] starts as [null].  Numbers and booleans do not occur:
    the form parser produces none and neither endpoint sends one.  A string
    is kept as the bytes of its UTF-8 encoding. *)

From Stdlib Require Import ZArith String Ascii List.
From stdpp Require Import base strings gmap list.

Open Scope string_scope.
#[local] Set Warnings "-register-all".

(** ** JavaScript values and the coercions the code relies on *)

Module JS.

Inductive value : Type :=
| VUndefined
| VNull
| VString (s : string)
| VArray (elems : list value)
| VObject (fields : list (string * value)).

Inductive exn : Type :=
| TypeError
| PayloadTooLargeError.

(** The outcome of evaluating an expression, or of running a handler behind
    its middleware: a value, or an error that was thrown or handed to
    Express. *)
Inductive completion (A : Type) : Type :=
| Normal (a : A)
| Throw (e : exn).
Arguments Normal {A} a.
Arguments Throw {A} e.

(** Sequencing [x ← m; k]: a thrown error skips the rest. *)
#[export] Instance completion_ret : MRet completion := @Normal.
#[export] Instance completion_bind : MBind completion :=
  fun A B k m => match m with
                 | Normal a => k a
                 | Throw e => Throw e
                 end.

(** [o[key]] on the own properties of an object literal or parsed body;
    a missing property reads as [undefined]. *)
Fixpoint get_field (fields : list (string * value)) (key : string) : value :=
  match fields with
  | [] => VUndefined
  | (k, v) :: rest => if bool_decide (k = key) then v else get_field rest key
  end.

Definition has_own (fields : list (string * value)) (key : string) : bool :=
  existsb (fun kv => bool_decide (fst kv = key)) fields.

(** [v.key]: reading a property of [undefined] or [null] throws; strings
    and arrays have no such data property. *)
Definition get_prop (v : value) (key : string) : completion value :=
  match v with
  | VUndefined | VNull => Throw TypeError
  | VString _ | VArray _ => Normal VUndefined
  | VObject fields => Normal (get_field fields key)
  end.

(** [!!v] *)
Definition truthy (v : value) : bool :=
  match v with
  | VUndefined | VNull => false
  | VString s => negb (bool_decide (s = ""))
  | VArray _ | VObject _ => true
  end.

(** [ToString(v)], as used by template literals and by the coercion of an
    object operand of [==].  Data objects carry no callable property: an
    own [toString] shadows [Object.prototype.toString] with a non-callable
    value, and the conversion throws; otherwise the inherited method
    answers.  An array is joined with commas, [undefined] and [null]
    elements giving the empty string. *)
Fixpoint to_string (v : value) : completion string :=
  match v with
  | VUndefined => Normal "undefined"
  | VNull => Normal "null"
  | VString s => Normal s
  | VArray elems =>
      (fix join (l : list value) : completion string :=
         match l with
         | [] => Normal ""
         | x :: rest =>
             s ← match x with
                 | VUndefined | VNull => Normal ""
                 | _ => to_string x
                 end;
             match rest with
             | [] => Normal s
             | _ :: _ => r ← join rest; Normal (s +:+ "," +:+ r)
             end
         end) elems
  | VObject fields =>
      if has_own fields "toString" then Throw TypeError
      else Normal "[object Object]"
  end.

(** [v == lit] for a string literal [lit]. *)
Definition loose_eq_string (v : value) (lit : string) : completion bool :=
  match v with
  | VUndefined | VNull => Normal false
  | VString s => Normal (bool_decide (s = lit))
  | VArray _ | VObject _ => s ← to_string v; Normal (bool_decide (s = lit))
  end.

(** [v === lit] for a string literal [lit]. *)
Definition strict_eq_string (v : value) (lit : string) : bool :=
  match v with
  | VString s => bool_decide (s = lit)
  | _ => false
  end.

End JS.

Import JS.

(** ** server/index.js *)

Module Server.

(** What Express hands to a handler: [req.headers] as Node builds it (names
    in lower case, one value per name) and [req.body] as the body parser
    leaves it (an object, empty when nothing was parsed). *)
Record request : Type := {
  req_headers : gmap string string;
  req_body : list (string * value)
}.

Record response : Type := {
  res_status : Z;
  res_body : value
}.

(** [res.status(code).send(body)]; [res.send(body)] alone answers 200. *)
Definition send (code : Z) (body : value) : response :=
  {| res_status := code; res_body := body |}.

(** [req.headers[name]] *)
Definition header (req : request) (name : string) : value :=
  from_option VString VUndefined (req_headers req !! name).

Definition code (id description : string) : value :=
  VObject [("type", VString "codes");
           ("id", VString id);
           ("attributes", VObject [("description", VString description)])].

Definition codes_payload : value :=
  VObject [("data", VArray [
    code "1" "Obama Nuclear Missile Launching Code is: lovedronesandthensa";
    code "2" "Putin Nuclear Missile Launching Code is: invasioncoolashuntingshirtless"])].

Definition unauthorized : response := send 401 (VString "Unauthorized").
Definition codes_ok : response := send 200 codes_payload.

(** [app.get('/api/codes', ...)] *)
Definition codes_handler (req : request) : response :=
  if negb (strict_eq_string (header req "authorization") "Bearer some bs")
  then unauthorized
  else codes_ok.

Definition token_ok : response :=
  send 200 (VObject [("access_token", VString "some bs")]).
Definition invalid_grant : response :=
  send 400 (VObject [("error", VString "invalid_grant")]).

(** [app.post('/token', ...)]; [&&] evaluates the password comparison only
    when the username comparison held. *)
Definition token_handler (req : request) : completion response :=
  u ← loose_eq_string (get_field (req_body req) "username") "login";
  if u : bool then
    p ← loose_eq_string (get_field (req_body req) "password") "password";
    if p : bool then Normal token_ok else Normal invalid_grant
  else Normal invalid_grant.

(** A request on arrival, before the middleware has run: the length of its
    body in bytes (its [Content-Length]) and the request the handlers see
    when the body parser lets it through, [req.body] holding the fields the
    body decodes to. *)
Record arrival : Type := {
  content_length : Z;
  parsed : request
}.

(** The default [limit] of the body parser, ['100kb']. *)
Definition limit : Z := 102400.

(** [app.use(bodyParser.urlencoded({ extended: true }))]: a body longer than
    the limit is refused with a 413 error, which Express answers with its
    error page; no handler runs. *)
Definition urlencoded (a : arrival) : completion request :=
  if (limit <? content_length a)%Z then Throw PayloadTooLargeError
  else Normal (parsed a).

(** The two routes behind the middleware. *)
Definition route_codes (a : arrival) : completion response :=
  req ← urlencoded a; Normal (codes_handler req).

Definition route_token (a : arrival) : completion response :=
  req ← urlencoded a; token_handler req.

End Server.

Import Server.

(** ** The Ember application *)

Module Client.

(** How a promise settles. *)
Inductive outcome (A E : Type) : Type :=
| Resolved (a : A)
| Rejected (e : E).
Arguments Resolved {A E} a.
Arguments Rejected {A E} e.

(** Why a request or its continuation failed: the server answered outside
    the success range (the [jqXHR] carries the response), an error reached
    Express, which answered with its error page, or the [then] callback
    threw. *)
Inductive failure : Type :=
| HttpError (r : response)
| HandlerThrew (e : exn)
| CallbackThrew (e : exn).

(** jQuery's success test on the status code. *)
Definition is_success (status : Z) : bool :=
  ((200 <=? status)%Z && (status <? 300)%Z) || (status =? 304)%Z.

(** The own fields of an object as JSON carries them: each key once, and a
    property whose value is [undefined] left out. *)
Fixpoint carried (f : value -> value) (seen : list string)
    (fields : list (string * value)) : list (string * value) :=
  match fields with
  | [] => []
  | (k, x) :: rest =>
      if existsb (fun k' => bool_decide (k' = k)) seen then carried f seen rest
      else match x with
           | VUndefined => carried f (k :: seen) rest
           | _ => (k, f x) :: carried f (k :: seen) rest
           end
  end.

(** An array or object after [JSON.stringify] on the server and [JSON.parse]
    in the browser: [undefined] becomes [null] in an array and disappears
    from an object. *)
Fixpoint revive (v : value) : value :=
  match v with
  | VArray elems =>
      VArray (map (fun x => match x with
                            | VUndefined => VNull
                            | _ => revive x
                            end) elems)
  | VObject fields => VObject (carried revive [] fields)
  | _ => v
  end.

(** What jQuery hands to a success callback: nothing for the statuses 204
    and 304; otherwise the body as [res.send] sent it, a string as it is, an
    object or array through JSON, and the empty text for [null] or
    [undefined]. *)
Definition received (r : response) : value :=
  if (res_status r =? 204)%Z || (res_status r =? 304)%Z then VUndefined
  else match res_body r with
       | VString s => VString s
       | VUndefined | VNull => VString ""
       | VArray _ | VObject _ => revive (res_body r)
       end.

(** [Ember.$.ajax(...)] once the server has answered. *)
Definition ajax (served : completion response) : outcome value failure :=
  match served with
  | Normal r =>
      if is_success (res_status r) then Resolved (received r)
      else Rejected (HttpError r)
  | Throw e => Rejected (HandlerThrew e)
  end.

(** What the application does to its surroundings. *)
Inductive effect : Type :=
| TransitionTo (target : string).

(** The state of the running application: the [accessToken] field of the
    [auth-manager] service, the codes the Ember Data store holds (none until
    a load succeeded), and the effects the application has had so far. *)
Record app : Type := {
  accessToken : value;
  store : option value;
  effects : list effect
}.

Definition init : app :=
  {| accessToken := VNull; store := None; effects := [] |}.

(** [this.set('accessToken', v)] *)
Definition set_accessToken (v : value) (s : app) : app :=
  {| accessToken := v; store := store s; effects := effects s |}.

(** [this.transitionTo(target)] *)
Definition transitionTo (target : string) (s : app) : app :=
  {| accessToken := accessToken s;
     store := store s;
     effects := (effects s ++ [TransitionTo target])%list |}.

(** The store takes in the codes of a successful load. *)
Definition push (codes : value) (s : app) : app :=
  {| accessToken := accessToken s; store := Some codes; effects := effects s |}.

(** [encodeURIComponent] on the bytes of a string. *)
Definition unreserved (c : ascii) : bool :=
  let n := nat_of_ascii c in
  ((48 <=? n) && (n <=? 57))%nat || ((65 <=? n) && (n <=? 90))%nat
  || ((97 <=? n) && (n <=? 122))%nat
  || existsb (Ascii.eqb c) ["-"; "_"; "."; "!"; "~"; "*"; "'"; "("; ")"]%char.

Definition hex_digit (n : nat) : ascii :=
  if (n <? 10)%nat then ascii_of_nat (48 + n) else ascii_of_nat (55 + n).

Definition percent (c : ascii) : string :=
  let n := nat_of_ascii c in
  String "%" (String (hex_digit (n / 16)) (String (hex_digit (n mod 16)) "")).

Fixpoint encodeURIComponent (s : string) : string :=
  match s with
  | EmptyString => EmptyString
  | String c rest =>
      (if unreserved c then String c "" else percent c) +:+ encodeURIComponent rest
  end.

(** [jQuery.param] on an object of strings, and jQuery's [%20] to [+] on the
    body of a form. *)
Definition param (d : list (string * string)) : string :=
  String.concat "&"
    (map (fun kv => encodeURIComponent (fst kv) +:+ "=" +:+ encodeURIComponent (snd kv)) d).

Fixpoint plus_for_space (s : string) : string :=
  match s with
  | String "%" (String "2" (String "0" rest)) => String "+" (plus_for_space rest)
  | String c rest => String c (plus_for_space rest)
  | EmptyString => EmptyString
  end.

(** The [data] of the login request, [{ username: login, password: password }].
    [login] and [password] are the values of the two text inputs of the
    login page: a string, or [undefined] ([None]) while the input was never
    filled; jQuery leaves an [undefined] property out when it takes over the
    options. *)
Definition data (login password : option string) : list (string * string) :=
  (match login with Some l => [("username", l)] | None => [] end
   ++ match password with Some p => [("password", p)] | None => [] end)%list.

(** The body of the login request as it is sent. *)
Definition form_body (login password : option string) : string :=
  plus_for_space (param (data login password)).

(** The fields the body parser decodes that body to. *)
Definition form_data (login password : option string) : list (string * value) :=
  map (fun kv => (fst kv, VString (snd kv))) (data login password).

(** [POST /token] with these fields as an urlencoded form; jQuery names the
    content type when there is a body. *)
Definition token_request (login password : option string) : arrival :=
  {| content_length := Z.of_nat (String.length (form_body login password));
     parsed :=
       {| req_headers :=
            if bool_decide (form_body login password = "") then ∅
            else {[ "content-type" := "application/x-www-form-urlencoded; charset=UTF-8" ]};
          req_body := form_data login password |} |}.

Section Authenticator.

(** Whatever serves [POST /token]. *)
Variable endpoint : arrival -> completion response.

(** The [then] callback of [authenticate]:
    [this.set('accessToken', result.access_token)]. *)
Definition authenticate_then (result : value) (s : app)
  : outcome unit failure * app :=
  match get_prop result "access_token" with
  | Normal token => (Resolved tt, set_accessToken token s)
  | Throw e => (Rejected (CallbackThrew e), s)
  end.

(** [authenticate(login, password)]: the request leaves at the call and the
    callback runs when the answer arrives.  Neither reads the state, so the
    whole call is taken at the moment of the answer. *)
Definition authenticate_with (login password : option string) (s : app)
  : outcome unit failure * app :=
  match ajax (endpoint (token_request login password)) with
  | Resolved result => authenticate_then result s
  | Rejected e => (Rejected e, s)
  end.

End Authenticator.

(** [authenticate(login, password)] against this repository's server. *)
Definition authenticate : option string -> option string -> app
                          -> outcome unit failure * app :=
  authenticate_with route_token.

(** [invalidate()] *)
Definition invalidate (s : app) : app := set_accessToken VNull s.

(** [isAuthenticated: Ember.computed.bool('accessToken')] *)
Definition isAuthenticated (s : app) : bool := truthy (accessToken s).

(** The adapter's computed [headers]. *)
Definition headers (s : app) : completion (list (string * string)) :=
  token ← to_string (accessToken s);
  Normal [("Authorization", "Bearer " +:+ token)].

(** Header names are case-insensitive: jQuery keeps one value per name
    whatever its case and Node hands the names over in lower case. *)
Definition lower_ascii (c : ascii) : ascii :=
  let n := nat_of_ascii c in
  if ((65 <=? n) && (n <=? 90))%nat then ascii_of_nat (n + 32) else c.

Fixpoint lower (s : string) : string :=
  match s with
  | EmptyString => EmptyString
  | String c rest => String (lower_ascii c) (lower rest)
  end.

(** An outgoing request of the adapter. *)
Record xhr : Type := {
  method : string;
  url : string;
  requestHeaders : gmap string string
}.

(** [xhr.setRequestHeader(name, value)]: a later value replaces an earlier
    one of the same name. *)
Definition setRequestHeader (name value : string) (x : xhr) : xhr :=
  {| method := method x;
     url := url x;
     requestHeaders := <[lower name := value]> (requestHeaders x) |}.

(** The adapter's [beforeSend]: every entry of [headers] is set on the
    request. *)
Definition decorate (s : app) (x : xhr) : completion xhr :=
  hs ← headers s;
  Normal (foldl (fun x kv => setRequestHeader (fst kv) (snd kv) x) x hs).

(** A header value travels without the whitespace (tab, line feed, carriage
    return, space) around it. *)
Definition http_whitespace (c : ascii) : bool :=
  existsb (Ascii.eqb c) ["009"; "010"; "013"; " "]%char.

Fixpoint trim_left (v : string) : string :=
  match v with
  | String c rest => if http_whitespace c then trim_left rest else v
  | EmptyString => EmptyString
  end.

Fixpoint trim_right (v : string) : string :=
  match v with
  | EmptyString => EmptyString
  | String c rest =>
      match trim_right rest with
      | EmptyString => if http_whitespace c then EmptyString else String c EmptyString
      | kept => String c kept
      end
  end.

Definition normalize (v : string) : string := trim_right (trim_left v).

(** A request without a body as it arrives at the server. *)
Definition sent (x : xhr) : arrival :=
  {| content_length := 0;
     parsed := {| req_headers := normalize <$> requestHeaders x; req_body := [] |} |}.

(** The adapter's [GET /api/codes]; [base] are the headers the request
    carries before the adapter's. *)
Definition fetch (base : gmap string string) (s : app)
  : completion (outcome value failure) :=
  x ← decorate s {| method := "GET"; url := "/api/codes"; requestHeaders := base |};
  Normal (ajax (route_codes (sent x))).

(** The [model] hook of the secret route, [this.store.findAll('code')].
    While the store holds no codes the promise waits for the adapter's
    request.  Once it holds some, the promise resolves with them at once and
    the request only reloads the store in the background; a failure of that
    reload reaches nobody. *)
Definition model (base : gmap string string) (s : app)
  : completion (outcome value failure) * app :=
  match store s with
  | None =>
      match fetch base s with
      | Normal (Resolved codes) => (Normal (Resolved codes), push codes s)
      | settled => (settled, s)
      end
  | Some cached =>
      (Normal (Resolved cached),
       match fetch base s with
       | Normal (Resolved codes) => push codes s
       | _ => s
       end)
  end.

(** The [error] action of the application route:
    [this.transitionTo('/login'); return false;] *)
Definition error (s : app) : bool * app :=
  (false, transitionTo "/login" s).

(** The router entering a route whose [model] hook has settled: a resolved
    hook hands its value to the page; a rejected or throwing hook fires the
    [error] action. *)
Definition enter (hook : completion (outcome value failure)) (s : app)
  : option value * app :=
  match hook with
  | Normal (Resolved codes) => (Some codes, s)
  | Normal (Rejected _) | Throw _ => (None, snd (error s))
  end.

(** Entering the secret route. *)
Definition visit_secret (base : gmap string string) (s : app) : option value * app :=
  enter (fst (model base s)) (snd (model base s)).

End Client.

Import Client.

(** ** Vocabulary of the properties *)

(** A field reads as [lit] when it is present and its string conversion is
    [lit]: the string itself, or an array or object converting to it. *)
Definition reads_as (v : value) (lit : string) : Prop :=
  match v with
  | VUndefined | VNull => False
  | _ => to_string v = Normal lit
  end.

(** A field as the login form produces it: a string, or nothing. *)
Definition is_text (v : value) : Prop :=
  match v with
  | VString _ | VUndefined => True
  | _ => False
  end.

(** The stored token is a non-empty string. *)
Definition token_nonempty (v : value) : Prop :=
  exists t, v = VString t /\ t <> "".

(** The invariant of the session: a token is held exactly when the session
    reports itself authenticated. *)
Definition session_invariant (s : app) : Prop :=
  token_nonempty (accessToken s) <-> isAuthenticated s = true.

(** The states the application can be in: it starts logged out, and users
    log in (with any credentials), log out, visit the secret page, or hit an
    error that reaches the application route. *)
Inductive reachable : app -> Prop :=
| reach_init : reachable init
| reach_authenticate login password s :
    reachable s -> reachable (snd (authenticate login password s))
| reach_invalidate s :
    reachable s -> reachable (invalidate s)
| reach_visit base s :
    reachable s -> reachable (snd (visit_secret base s))
| reach_error s :
    reachable s -> reachable (snd (error s)).

(** [x'] is [x] with the header [Authorization: Bearer <text>] set and
    nothing else changed. *)
Definition with_bearer (text : string) (x x' : xhr) : Prop :=
  method x' = method x
  /\ url x' = url x
  /\ requestHeaders x' !! "authorization" = Some ("Bearer " +:+ text)
  /\ forall name, name <> "authorization" ->
                  requestHeaders x' !! name = requestHeaders x !! name.

(** A session holding the server's token, and a request about to leave. *)
Definition logged_in : app := set_accessToken (VString "some bs") init.

Definition get_codes : xhr :=
  {| method := "GET"; url := "/api/codes"; requestHeaders := ∅ |}.

(** An identity endpoint that answers every request with an empty token. *)
Definition empty_token_endpoint (a : arrival) : completion response :=
  Normal (send 200 (VObject [("access_token", VString "")])).

(** A form body whose username is the one-element array [["login"]]
    ([username[]=login&password=password]). *)
Definition array_login : request :=
  {| req_headers := ∅;
     req_body := [("username", VArray [VString "login"]);
                  ("password", VString "password")] |}.

(** The length in bytes of the body of the login request. *)
Definition form_size (login password : option string) : Z :=
  content_length (token_request login password).

(** A login of 102400 characters. *)
Definition long_login : string := N.iter 102400 (String "a") "".

(** *** Readings of the specification that the code does not meet *)

(** Every login with other credentials is rejected as an invalid grant and
    changes nothing. *)
Definition login_as_stated : Prop :=
  forall (login password : option string) (s : app),
    ~ (login = Some "login" /\ password = Some "password") ->
    authenticate login password s = (Rejected (HttpError invalid_grant), s).

(** The token endpoint accepts exactly the bodies whose two fields are the
    expected strings, and answers 400 to every other body. *)
Definition token_as_stated : Prop :=
  forall req : request,
    let u := get_field (req_body req) "username" in
    let p := get_field (req_body req) "password" in
    (token_handler req = Normal token_ok
     <-> u = VString "login" /\ p = VString "password")
    /\ (~ (u = VString "login" /\ p = VString "password")
        -> token_handler req = Normal invalid_grant).

(** Decoration attaches the bearer header to an authenticated session's
    request and leaves an anonymous session's request as it is. *)
Definition decorate_as_stated : Prop :=
  forall (s : app) (x : xhr),
    (forall t, accessToken s = VString t -> isAuthenticated s = true ->
       exists x', decorate s x = Normal x'
                  /\ requestHeaders x' !! "authorization" = Some ("Bearer " +:+ t))
    /\ (isAuthenticated s = false -> decorate s x = Normal x).


(** Storing an empty token fails and stores nothing. *)
Definition empty_token_as_stated : Prop :=
  forall s : app,
    exists e, authenticate_then (VObject [("access_token", VString "")]) s
              = (Rejected e, s).

(** Two logouts in a row leave the session anonymous each time and tell the
    subscribers exactly once. *)
Definition logout_as_stated : Prop :=
  forall s : app,
    isAuthenticated (invalidate s) = false
    /\ isAuthenticated (invalidate (invalidate s)) = false
    /\ (isAuthenticated s = true ->
        exists e, effects (invalidate (invalidate s)) = (effects s ++ [e])%list).

(** ** The login page *)

Module LoginPage.

Section Texts.

(** [JSON.stringify], which Express applies to an object or array handed to
    [res.send], and the text of the page Express sends when a handler
    threw. *)
Variable stringify : value -> string.
Variable error_page : exn -> string.

(** The text of a response as [jqXHR.responseText] shows it: [res.send]
    sends a string as it is, an object or array as JSON, and nothing for
    [null] or [undefined]. *)
Definition responseText (r : response) : string :=
  match res_body r with
  | VString s => s
  | VUndefined | VNull => ""
  | VArray _ | VObject _ => stringify (res_body r)
  end.

(** [err.responseText] as the failure callback appends it to its message:
    [err] is the [jqXHR] of the failed request, or the error thrown by the
    [then] callback, which has no such property. *)
Definition err_responseText (err : failure) : string :=
  match err with
  | HttpError r => responseText r
  | HandlerThrew e => error_page e
  | CallbackThrew _ => "undefined"
  end.

(** The [authenticate] action of the [login-page] component; the first
    component of the result is the message it shows with [alert]. *)
Definition authenticate (login password : option string) (s : app) : string * app :=
  match Client.authenticate login password s with
  | (Resolved _, s') => ("Success! Click the top link!", s')
  | (Rejected err, s') => ("Error obtaining token: " +:+ err_responseText err, s')
  end.

End Texts.

End LoginPage.

(** ** Vocabulary of further properties *)

(** The conversion of an array element by [join]. *)
Definition element_string (x : value) : completion string :=
  match x with
  | VUndefined | VNull => Normal ""
  | _ => to_string x
  end.

(** A value whose string conversion throws: an object with an own
    [toString] property, or an array holding such a value. *)
Fixpoint poisoned (v : value) : bool :=
  match v with
  | VObject fields => has_own fields "toString"
  | VArray elems => existsb poisoned elems
  | _ => false
  end.

(** [v] wrapped in [n] one-element arrays: [[[v]]] for [n = 2]. *)
Fixpoint nest (n : nat) (v : value) : value :=
  match n with
  | O => v
  | S n' => VArray [nest n' v]
  end.

(** The header the adapter builds from the stored token is, as the browser
    sends it, the one the codes endpoint accepts. *)
Definition token_accepted (s : app) : bool :=
  match to_string (accessToken s) with
  | Normal t => bool_decide (normalize ("Bearer " +:+ t) = "Bearer some bs")
  | Throw _ => false
  end.

(** A string of whitespace. *)
Fixpoint whitespace_only (w : string) : bool :=
  match w with
  | EmptyString => true
  | String c rest => http_whitespace c && whitespace_only rest
  end.

(** The state a visit of the secret route leaves, and what it hands to the
    page, by what the store holds and whether the token is accepted. *)
Definition visit_secret_result (s : app) : option value * app :=
  match store s, token_accepted s with
  | None, true => (Some codes_payload, push codes_payload s)
  | None, false => (None, transitionTo "/login" s)
  | Some cached, true => (Some cached, push codes_payload s)
  | Some cached, false => (Some cached, s)
  end.

(** A form body with these two fields. *)
Definition token_body (username password : value) : request :=
  {| req_headers := ∅;
     req_body := [("username", username); ("password", password)] |}.

(** ** Sanity checks on concrete inputs *)

Example to_string_array :
  to_string (VArray [VString "a"; VNull; VArray [VString "b"; VString "c"]])
  = Normal "a,,b,c".
Proof. reflexivity. Qed.

Example to_string_shadowed :
  to_string (VArray [VObject [("toString", VString "x")]]) = Throw TypeError.
Proof. reflexivity. Qed.

Example lower_Authorization : lower "Authorization" = "authorization".
Proof. reflexivity. Qed.

Example token_login_password :
  token_handler {| req_headers := ∅; req_body := form_data (Some "login") (Some "password") |}
  = Normal token_ok.
Proof. reflexivity. Qed.

Example token_x_y :
  token_handler {| req_headers := ∅; req_body := form_data (Some "x") (Some "y") |}
  = Normal invalid_grant.
Proof. reflexivity. Qed.

Example token_empty_body :
  token_handler {| req_headers := ∅; req_body := [] |} = Normal invalid_grant.
Proof. reflexivity. Qed.

Example token_shadowed_toString :
  token_handler {| req_headers := ∅;
                   req_body := [("username", VObject [("toString", VString "x")])] |}
  = Throw TypeError.
Proof. reflexivity. Qed.

Example scenario_end_to_end :
  let s1 := snd (authenticate (Some "login") (Some "password") init) in
  let s2 := invalidate s1 in
  accessToken s1 = VString "some bs"
  /\ fst (visit_secret ∅ s1) = Some codes_payload
  /\ fst (visit_secret ∅ s2) = None
  /\ effects (snd (visit_secret ∅ s2)) = [TransitionTo "/login"].
Proof. repeat split. Qed.

Example codes_stay_after_logout :
  let s1 := snd (authenticate (Some "login") (Some "password") init) in
  let s2 := snd (visit_secret ∅ s1) in
  let s3 := invalidate s2 in
  store s2 = Some codes_payload
  /\ isAuthenticated s3 = false
  /\ visit_secret ∅ s3 = (Some codes_payload, s3).
Proof. repeat split. Qed.

Example answer_without_content :
  authenticate_with
    (fun _ => Normal (send 204 (VObject [("access_token", VString "t")])))
    (Some "login") (Some "password") init
  = (Rejected (CallbackThrew TypeError), init).
Proof. reflexivity. Qed.

Example answer_null :
  authenticate_with (fun _ => Normal (send 200 VNull))
    (Some "login") (Some "password") init
  = (Resolved tt, set_accessToken VUndefined init).
Proof. reflexivity. Qed.

Example form_body_encoded :
  form_body (Some "lo gin%") (Some "p&w") = "username=lo+gin%25&password=p%26w"
  /\ form_body None (Some "p") = "password=p"
  /\ form_data None (Some "p") = [("password", VString "p")]
  /\ form_body None None = ""
  /\ form_data None None = [].
Proof. repeat split. Qed.

Example normalize_bearer :
  normalize (" Bearer some bs " +:+ String "010" "") = "Bearer some bs".
Proof. reflexivity. Qed.

Example revive_object :
  revive (VObject [("a", VUndefined); ("b", VArray [VUndefined; VString "x"])])
  = VObject [("b", VArray [VNull; VString "x"])].
Proof. reflexivity. Qed.

(** ** The two endpoints *)

Section Endpoints.

Implicit Types (req : request) (v : value) (lit : string).

Lemma strict_eq_header req name lit :
  strict_eq_string (header req name) lit = true
  <-> req_headers req !! name = Some lit.
Proof.
  unfold header. destruct (req_headers req !! name) as [h|]; simpl.
  - rewrite bool_decide_eq_true. split; congruence.
  - split; discriminate.
Qed.

Lemma codes_handler_ok req :
  req_headers req !! "authorization" = Some "Bearer some bs" ->
  codes_handler req = codes_ok.
Proof.
  intros H%strict_eq_header. unfold codes_handler. by rewrite H.
Qed.

Lemma codes_handler_unauthorized req :
  req_headers req !! "authorization" <> Some "Bearer some bs" ->
  codes_handler req = unauthorized.
Proof.
  intros H. unfold codes_handler.
  destruct (strict_eq_string (header req "authorization") "Bearer some bs") eqn:E;
    [| reflexivity].
  apply strict_eq_header in E. contradiction.
Qed.

Lemma codes_handler_rejects req :
  req_headers req !! "authorization" <> Some "Bearer some bs" ->
  codes_handler req = unauthorized /\ res_body (codes_handler req) <> codes_payload.
Proof.
  intros H. rewrite (codes_handler_unauthorized req H). split; [reflexivity | discriminate].
Qed.

(** [Normal (bool_decide (s = lit)) = Normal true] says [Normal s = Normal lit]. *)
Ltac decided_equal :=
  split;
  [ intros [= H%bool_decide_eq_true]; congruence
  | intros [= ->]; by rewrite bool_decide_true ].

Lemma loose_eq_string_true v lit :
  loose_eq_string v lit = Normal true <-> reads_as v lit.
Proof.
  destruct v as [| |s|l|fs]; unfold loose_eq_string, reads_as.
  - split; [discriminate | tauto].
  - split; [discriminate | tauto].
  - simpl. decided_equal.
  - destruct (to_string (VArray l)) as [s|e]; simpl; [decided_equal | split; discriminate].
  - destruct (to_string (VObject fs)) as [s|e]; simpl; [decided_equal | split; discriminate].
Qed.

Lemma reads_as_text v lit : is_text v -> reads_as v lit <-> v = VString lit.
Proof.
  destruct v; simpl; try tauto.
  - intros _. split; [tauto | discriminate].
  - intros _. split; congruence.
Qed.

Lemma loose_eq_string_text v lit :
  is_text v -> exists b, loose_eq_string v lit = Normal b.
Proof. destruct v; simpl; try tauto; eauto. Qed.

Lemma token_handler_ok req :
  token_handler req = Normal token_ok
  <-> reads_as (get_field (req_body req) "username") "login"
      /\ reads_as (get_field (req_body req) "password") "password".
Proof.
  rewrite <- !loose_eq_string_true. unfold token_handler.
  destruct (loose_eq_string (get_field (req_body req) "username") "login")
    as [[|]|e]; simpl.
  - destruct (loose_eq_string (get_field (req_body req) "password") "password")
      as [[|]|e]; simpl.
    + tauto.
    + split; [discriminate | intros [_ ?]; discriminate].
    + split; [discriminate | intros [_ ?]; discriminate].
  - split; [discriminate | intros [? _]; discriminate].
  - split; [discriminate | intros [? _]; discriminate].
Qed.

Lemma token_handler_answers req r :
  token_handler req = Normal r -> r = token_ok \/ r = invalid_grant.
Proof.
  unfold token_handler.
  destruct (loose_eq_string (get_field (req_body req) "username") "login")
    as [[|]|e]; simpl; [| intros [= <-]; tauto | discriminate].
  destruct (loose_eq_string (get_field (req_body req) "password") "password")
    as [[|]|e]; simpl; [intros [= <-]; tauto | intros [= <-]; tauto | discriminate].
Qed.

Lemma token_handler_text req :
  is_text (get_field (req_body req) "username") ->
  is_text (get_field (req_body req) "password") ->
  token_handler req = Normal token_ok \/ token_handler req = Normal invalid_grant.
Proof.
  intros Hu Hp. unfold token_handler.
  destruct (loose_eq_string_text _ "login" Hu) as [[|] ->]; simpl; [| tauto].
  destruct (loose_eq_string_text _ "password" Hp) as [[|] ->]; simpl; tauto.
Qed.

End Endpoints.

(** C3 (as amended). [POST /token] answers 200 with [{access_token: "some bs"}]
    exactly when [username == 'login' && password == 'password'] holds under
    JavaScript's loose equality, that is when each field is present and
    converts to the expected string; whatever else it answers is 400 with
    [{error: "invalid_grant"}].  For fields that are strings or absent, as the
    login form sends them, this is the exact test of the two strings: 200 with
    the token if and only if username is "login" and password is "password",
    and 400 [invalid_grant] otherwise. *)
Theorem token_endpoint_contract (req : request) :
  let u := get_field (req_body req) "username" in
  let p := get_field (req_body req) "password" in
  (token_handler req = Normal token_ok
   <-> reads_as u "login" /\ reads_as p "password")
  /\ (forall r, token_handler req = Normal r -> r <> token_ok -> r = invalid_grant)
  /\ (is_text u -> is_text p ->
      (token_handler req = Normal token_ok
       <-> u = VString "login" /\ p = VString "password")
      /\ (~ (u = VString "login" /\ p = VString "password")
          -> token_handler req = Normal invalid_grant))
  /\ res_status token_ok = 200%Z
  /\ res_body token_ok = VObject [("access_token", VString "some bs")]
  /\ res_status invalid_grant = 400%Z
  /\ res_body invalid_grant = VObject [("error", VString "invalid_grant")].
Proof.
  intros u p. split; [apply token_handler_ok |].
  split.
  { intros r Hr Hne. destruct (token_handler_answers req r Hr); [contradiction | done]. }
  split; [| repeat split].
  intros Hu Hp.
  assert (Hiff : token_handler req = Normal token_ok
                 <-> u = VString "login" /\ p = VString "password").
  { rewrite token_handler_ok. fold u p.
    by rewrite (reads_as_text u) , (reads_as_text p). }
  split; [exact Hiff |].
  intros Hne. destruct (token_handler_text req Hu Hp) as [H|H]; [| exact H].
  apply Hiff in H. contradiction.
Qed.

Lemma token_endpoint_contract_witness :
  token_handler
    {| req_headers := ∅; req_body := form_data (Some "x") (Some "y") |}
  = Normal invalid_grant.
Proof.
  apply (token_endpoint_contract
           {| req_headers := ∅; req_body := form_data (Some "x") (Some "y") |});
    simpl; try exact I.
  intros [H _]. discriminate H.
Defined.

(** C3 (as stated) fails: the body [username[]=login&password=password] is
    parsed to a username that is the array [["login"]], not the string
    "login", and is answered 200 with the token. *)
Lemma token_array_login_accepted :
  get_field (req_body array_login) "username" = VArray [VString "login"]
  /\ token_handler array_login
     = Normal {| res_status := 200;
                 res_body := VObject [("access_token", VString "some bs")] |}
  /\ ~ token_as_stated.
Proof.
  split; [reflexivity |]. split; [reflexivity |].
  intros H. destruct (H array_login) as [[Hok _] _].
  destruct (Hok eq_refl) as [Hu _]. discriminate Hu.
Qed.

(** C4. [GET /api/codes] answers 401 [Unauthorized], without the codes, to
    every request whose [Authorization] header is missing or is not exactly
    "Bearer some bs", and 200 with the document of the two codes to the
    request that carries exactly that header. *)
Theorem codes_requires_bearer (req : request) :
  (req_headers req !! "authorization" <> Some "Bearer some bs" ->
   codes_handler req = {| res_status := 401; res_body := VString "Unauthorized" |}
   /\ res_body (codes_handler req) <> codes_payload)
  /\ (req_headers req !! "authorization" = Some "Bearer some bs" ->
      codes_handler req
      = {| res_status := 200;
           res_body :=
             VObject [("data", VArray [
               VObject [("type", VString "codes");
                        ("id", VString "1");
                        ("attributes", VObject [("description", VString
                           "Obama Nuclear Missile Launching Code is: lovedronesandthensa")])];
               VObject [("type", VString "codes");
                        ("id", VString "2");
                        ("attributes", VObject [("description", VString
                           "Putin Nuclear Missile Launching Code is: invasioncoolashuntingshirtless")])]])] |}).
Proof.
  split.
  - intros H. rewrite (codes_handler_unauthorized req H). split; [reflexivity | discriminate].
  - intros H. by rewrite (codes_handler_ok req H).
Qed.

Lemma codes_requires_bearer_witness :
  codes_handler {| req_headers := {[ "authorization" := "Bearer null" ]}; req_body := [] |}
  = {| res_status := 401; res_body := VString "Unauthorized" |}
  /\ res_status
       (codes_handler
          {| req_headers := {[ "authorization" := "Bearer some bs" ]}; req_body := [] |})
     = 200%Z.
Proof.
  split.
  - apply (codes_requires_bearer
             {| req_headers := {[ "authorization" := "Bearer null" ]}; req_body := [] |}).
    simpl. discriminate.
  - destruct (codes_requires_bearer
                {| req_headers := {[ "authorization" := "Bearer some bs" ]};
                   req_body := [] |}) as [_ Hok].
    by rewrite Hok.
Defined.

(** ** The session *)

Section Session.

Implicit Types (s : app) (x : xhr) (login password : option string).

Lemma token_handler_form login password :
  token_handler (parsed (token_request login password))
  = Normal (if bool_decide (login = Some "login" /\ password = Some "password")
            then token_ok else invalid_grant).
Proof.
  destruct (decide (login = Some "login" /\ password = Some "password"))
    as [[-> ->]|Hne]; [reflexivity |].
  rewrite (bool_decide_false _ Hne).
  unfold token_handler, token_request, form_data, data. cbn [parsed req_body].
  destruct login as [l|], password as [p|]; simpl; try done.
  - case_bool_decide as Hu; simpl; [| done].
    case_bool_decide as Hp; simpl; [| done]. subst. by destruct Hne.
  - by case_bool_decide.
Qed.

Lemma route_token_form login password :
  route_token (token_request login password)
  = if (limit <? form_size login password)%Z then Throw PayloadTooLargeError
    else Normal (if bool_decide (login = Some "login" /\ password = Some "password")
                 then token_ok else invalid_grant).
Proof.
  unfold route_token, urlencoded, form_size.
  destruct (limit <? content_length (token_request login password))%Z; [reflexivity |].
  apply token_handler_form.
Qed.

Lemma form_size_login_password :
  (limit <? form_size (Some "login") (Some "password"))%Z = false.
Proof. reflexivity. Qed.

Lemma authenticate_outcome login password s :
  authenticate login password s
  = if (limit <? form_size login password)%Z
    then (Rejected (HandlerThrew PayloadTooLargeError), s)
    else if bool_decide (login = Some "login" /\ password = Some "password")
         then (Resolved tt, set_accessToken (VString "some bs") s)
         else (Rejected (HttpError invalid_grant), s).
Proof.
  unfold authenticate, authenticate_with. rewrite route_token_form.
  destruct (limit <? form_size login password)%Z; [reflexivity |].
  by case_bool_decide.
Qed.

Lemma authenticate_valid s :
  authenticate (Some "login") (Some "password") s
  = (Resolved tt, set_accessToken (VString "some bs") s).
Proof. by rewrite authenticate_outcome, form_size_login_password. Qed.

Lemma authenticate_invalid login password s :
  ~ (login = Some "login" /\ password = Some "password") ->
  (form_size login password <= limit)%Z ->
  authenticate login password s = (Rejected (HttpError invalid_grant), s).
Proof.
  intros H Hsize. rewrite authenticate_outcome.
  destruct (Z.ltb_spec limit (form_size login password)); [lia |].
  by rewrite bool_decide_false.
Qed.

Lemma authenticate_token login password s :
  accessToken (snd (authenticate login password s)) = VString "some bs"
  \/ snd (authenticate login password s) = s.
Proof.
  rewrite authenticate_outcome.
  destruct (limit <? form_size login password)%Z; [by right |].
  case_bool_decide; [by left | by right].
Qed.

Lemma model_token base s :
  accessToken (snd (model base s)) = accessToken s.
Proof.
  unfold model.
  destruct (store s); destruct (fetch base s) as [[?|?]|?]; reflexivity.
Qed.

Lemma enter_token hook s :
  accessToken (snd (enter hook s)) = accessToken s.
Proof. by destruct hook as [[?|?]|?]. Qed.

Lemma visit_secret_token base s :
  accessToken (snd (visit_secret base s)) = accessToken s.
Proof. unfold visit_secret. by rewrite enter_token, model_token. Qed.

Lemma reachable_token s :
  reachable s -> accessToken s = VNull \/ accessToken s = VString "some bs".
Proof.
  induction 1 as [|login password s _ IH|s _ _|base s _ IH|s _ IH].
  - by left.
  - destruct (authenticate_token login password s) as [->| ->]; [by right | exact IH].
  - by left.
  - by rewrite visit_secret_token.
  - exact IH.
Qed.

Lemma truthy_nonempty (v : value) :
  v = VNull \/ is_text v -> token_nonempty v <-> truthy v = true.
Proof.
  unfold token_nonempty. intros [->|Hv].
  - simpl. split; [intros (t & [=] & _) | discriminate].
  - destruct v as [| |t| |]; simpl in *; try contradiction.
    + split; [intros (t & [=] & _) | discriminate].
    + rewrite negb_true_iff, bool_decide_eq_false. split.
      * by intros (t' & [= <-] & Hne).
      * intros Hne. by exists t.
Qed.

Lemma session_invariant_text s :
  accessToken s = VNull \/ is_text (accessToken s) -> session_invariant s.
Proof. apply truthy_nonempty. Qed.

Lemma session_invariant_token s s' :
  accessToken s' = accessToken s -> session_invariant s -> session_invariant s'.
Proof. unfold session_invariant, isAuthenticated. by intros ->. Qed.

Lemma set_accessToken_invariant (v : value) s :
  v = VNull \/ is_text v -> session_invariant (set_accessToken v s).
Proof. intros Hv. by apply session_invariant_text. Qed.

Lemma decorate_text s x text :
  to_string (accessToken s) = Normal text ->
  decorate s x = Normal (setRequestHeader "Authorization" ("Bearer " +:+ text) x).
Proof. intros H. unfold decorate, headers. by rewrite H. Qed.

Lemma setRequestHeader_bearer text x :
  with_bearer text x (setRequestHeader "Authorization" ("Bearer " +:+ text) x).
Proof.
  unfold with_bearer, setRequestHeader; simpl.
  change (lower "Authorization") with "authorization".
  repeat split.
  - apply lookup_insert_eq.
  - intros name Hne. by apply lookup_insert_ne.
Qed.

Lemma decorate_bearer s x text :
  to_string (accessToken s) = Normal text ->
  exists x', decorate s x = Normal x' /\ with_bearer text x x'.
Proof.
  intros H. eexists. split; [by apply decorate_text | apply setRequestHeader_bearer].
Qed.

Lemma reachable_anonymous s :
  reachable s -> isAuthenticated s = false -> accessToken s = VNull.
Proof.
  intros [H|H]%reachable_token; [done |].
  unfold isAuthenticated. rewrite H. discriminate.
Qed.

Lemma route_codes_sent x :
  route_codes (sent x) = Normal (codes_handler (parsed (sent x))).
Proof. reflexivity. Qed.

Lemma sent_authorization (v : string) x :
  req_headers (parsed (sent (setRequestHeader "Authorization" v x))) !! "authorization"
  = Some (normalize v).
Proof.
  unfold sent, setRequestHeader. cbn [parsed req_headers requestHeaders].
  change (lower "Authorization") with "authorization".
  by rewrite lookup_fmap, lookup_insert_eq.
Qed.

Lemma fetch_text base s t :
  to_string (accessToken s) = Normal t ->
  fetch base s
  = Normal (if bool_decide (normalize ("Bearer " +:+ t) = "Bearer some bs")
            then Resolved codes_payload
            else Rejected (HttpError unauthorized)).
Proof.
  intros E. unfold fetch. rewrite (decorate_text s _ t E).
  unfold mbind at 1, completion_bind at 1. rewrite route_codes_sent. f_equal.
  case_bool_decide as Ht.
  - rewrite codes_handler_ok; [reflexivity |]. by rewrite sent_authorization, Ht.
  - rewrite codes_handler_unauthorized; [reflexivity |].
    rewrite sent_authorization. congruence.
Qed.

Lemma fetch_throws base s e :
  to_string (accessToken s) = Throw e -> fetch base s = Throw e.
Proof. intros E. unfold fetch, decorate, headers. by rewrite E. Qed.

End Session.

(** ** What the browser receives *)

Section Received.

Implicit Types (fields : list (string * value)) (seen : list string) (k : string).

Lemma get_field_carried (f : value -> value) seen fields k :
  get_field (carried f seen fields) k
  = if existsb (fun k' => bool_decide (k' = k)) seen then VUndefined
    else match get_field fields k with
         | VUndefined => VUndefined
         | x => f x
         end.
Proof.
  revert seen. induction fields as [|[k0 x] rest IH]; intros seen.
  - simpl. by destruct (existsb _ seen).
  - cbn [carried get_field].
    destruct (existsb (fun k' => bool_decide (k' = k0)) seen) eqn:Hk0.
    + rewrite IH. destruct (existsb (fun k' => bool_decide (k' = k)) seen) eqn:Hk; [done |].
      case_bool_decide as E; [| done]. subst k0. congruence.
    + assert (Hcons : get_field (carried f (k0 :: seen) rest) k
                      = if bool_decide (k0 = k) then VUndefined
                        else if existsb (fun k' => bool_decide (k' = k)) seen
                             then VUndefined
                             else match get_field rest k with
                                  | VUndefined => VUndefined
                                  | y => f y
                                  end).
      { rewrite IH. cbn [existsb]. by case_bool_decide. }
      case_bool_decide as E.
      * subst k0. rewrite Hk0.
        destruct x; cbn [get_field];
          rewrite ?bool_decide_true by done; try done; by rewrite Hcons.
      * destruct x; cbn [get_field];
          rewrite ?bool_decide_false by done; by rewrite Hcons.
Qed.

Lemma get_prop_revive fields k :
  get_prop (revive (VObject fields)) k
  = Normal (match get_field fields k with
            | VUndefined => VUndefined
            | x => revive x
            end).
Proof. cbn [revive get_prop]. by rewrite get_field_carried. Qed.

Lemma get_prop_received (r : response) fields k :
  (res_status r =? 204)%Z || (res_status r =? 304)%Z = false ->
  res_body r = VObject fields ->
  get_prop (received r) k
  = Normal (match get_field fields k with
            | VUndefined => VUndefined
            | x => revive x
            end).
Proof.
  intros Hs Hb. unfold received. rewrite Hs, Hb. apply get_prop_revive.
Qed.

Lemma received_not_object (r : response) :
  (forall fields, res_body r <> VObject fields) ->
  get_prop (received r) "access_token" = Throw TypeError
  \/ get_prop (received r) "access_token" = Normal VUndefined.
Proof.
  intros Hb. unfold received.
  destruct ((res_status r =? 204)%Z || (res_status r =? 304)%Z); [by left |].
  destruct (res_body r) as [| |t|l|fields]; try by right.
  by destruct (Hb fields).
Qed.

End Received.

(** The invariant does not depend on this repository's server: it survives a
    login against any identity endpoint whose successful answers carry a
    token that is a string, [null], or missing. *)
Section AnyEndpoint.

Variable endpoint : arrival -> completion response.

Hypothesis endpoint_token :
  forall a r fields,
    endpoint a = Normal r -> is_success (res_status r) = true ->
    res_body r = VObject fields ->
    get_field fields "access_token" = VNull
    \/ is_text (get_field fields "access_token").

Lemma authenticate_with_invariant login password (s : app) :
  session_invariant s ->
  session_invariant (snd (authenticate_with endpoint login password s)).
Proof.
  intros Hs. unfold authenticate_with, ajax.
  destruct (endpoint (token_request login password)) as [r|e] eqn:Hr; [| exact Hs].
  destruct (is_success (res_status r)) eqn:Hok; [| exact Hs].
  unfold authenticate_then.
  destruct ((res_status r =? 204)%Z || (res_status r =? 304)%Z) eqn:Hstatus.
  { unfold received. by rewrite Hstatus. }
  destruct (res_body r) as [| |t|l|fields] eqn:Hb.
  - unfold received. rewrite Hstatus, Hb. cbn. apply set_accessToken_invariant. by right.
  - unfold received. rewrite Hstatus, Hb. cbn. apply set_accessToken_invariant. by right.
  - unfold received. rewrite Hstatus, Hb. cbn. apply set_accessToken_invariant. by right.
  - unfold received. rewrite Hstatus, Hb. cbn. apply set_accessToken_invariant. by right.
  - rewrite (get_prop_received r fields _ Hstatus Hb). cbn [fst snd].
    apply set_accessToken_invariant.
    destruct (endpoint_token _ r fields Hr Hok Hb) as [-> | Ht]; [by left |].
    destruct (get_field fields "access_token"); simpl in Ht; try contradiction;
      by right.
Qed.

End AnyEndpoint.
(** ** Properties of the authentication flow *)

(** C1. Logging in with login "login" and password "password" is accepted by
    the token endpoint, resolves, and leaves an authenticated session whose
    token is exactly "some bs"; the adapter's headers are then
    [Authorization: Bearer some bs], and decorating any outgoing request sets
    that header on it. *)
Theorem login_round_trip (s : app) (x : xhr) :
  let s' := snd (authenticate (Some "login") (Some "password") s) in
  route_token (token_request (Some "login") (Some "password"))
  = Normal {| res_status := 200;
              res_body := VObject [("access_token", VString "some bs")] |}
  /\ fst (authenticate (Some "login") (Some "password") s) = Resolved tt
  /\ accessToken s' = VString "some bs"
  /\ isAuthenticated s' = true
  /\ headers s' = Normal [("Authorization", "Bearer some bs")]
  /\ exists x', decorate s' x = Normal x' /\ with_bearer "some bs" x x'.
Proof.
  intros s'. subst s'. rewrite authenticate_valid. simpl.
  repeat split. by apply decorate_bearer.
Qed.

(** C2. In every reachable state of the application the stored token is a
    non-empty string if and only if [isAuthenticated] is true.  The
    equivalence holds initially and every operation preserves it: a login
    (whether it succeeds or is rejected), a logout, a visit of the secret
    page and the error action. *)
Theorem token_iff_authenticated :
  session_invariant init
  /\ (forall login password s,
        session_invariant s -> session_invariant (snd (authenticate login password s)))
  /\ (forall s, session_invariant s -> session_invariant (invalidate s))
  /\ (forall base s, session_invariant s -> session_invariant (snd (visit_secret base s)))
  /\ (forall s, session_invariant s -> session_invariant (snd (error s)))
  /\ (forall s, reachable s ->
        (token_nonempty (accessToken s) <-> isAuthenticated s = true)).
Proof.
  split; [| split; [| split; [| split; [| split]]]].
  - apply session_invariant_text. by left.
  - intros login password s Hs.
    destruct (authenticate_token login password s) as [E| ->]; [| exact Hs].
    apply session_invariant_text. right. by rewrite E.
  - intros s _. apply session_invariant_text. by left.
  - intros base s. apply session_invariant_token, visit_secret_token.
  - intros s. by apply session_invariant_token.
  - intros s [E|E]%reachable_token; apply session_invariant_text; rewrite E; simpl; auto.
Qed.

Lemma token_iff_authenticated_witness :
  token_nonempty (accessToken (invalidate logged_in))
  <-> isAuthenticated (invalidate logged_in) = true.
Proof.
  apply token_iff_authenticated.
  apply reach_invalidate.
  apply (reach_authenticate (Some "login") (Some "password") init).
  apply reach_init.
Defined.

(** C5 (as amended). For every credential pair other than login "login" with
    password "password" whose form is within the body parser's limit of
    102400 bytes, the login is rejected with the endpoint's 400
    [{error: "invalid_grant"}] response; a longer form is refused by the body
    parser with a 413 error before the handler runs.  In both cases the token
    is not set (the whole application state is unchanged), and an anonymous
    session stays anonymous. *)
Theorem login_rejected (login password : option string) (s : app) :
  ~ (login = Some "login" /\ password = Some "password") ->
  ((form_size login password <= 102400)%Z ->
   authenticate login password s
   = (Rejected (HttpError {| res_status := 400;
                             res_body := VObject [("error", VString "invalid_grant")] |}),
      s))
  /\ ((102400 < form_size login password)%Z ->
      authenticate login password s
      = (Rejected (HandlerThrew PayloadTooLargeError), s))
  /\ snd (authenticate login password s) = s
  /\ (isAuthenticated s = false ->
      isAuthenticated (snd (authenticate login password s)) = false).
Proof.
  intros H. rewrite authenticate_outcome, (bool_decide_false _ H).
  change limit with 102400%Z.
  destruct (Z.ltb_spec 102400 (form_size login password)) as [Hlong|Hshort].
  - split; [lia |]. by repeat split.
  - split; [done |]. split; [lia |]. by split.
Qed.

Lemma login_rejected_witness :
  authenticate (Some "x") (Some "y") init
  = (Rejected (HttpError {| res_status := 400;
                            res_body := VObject [("error", VString "invalid_grant")] |}),
     init)
  /\ isAuthenticated (snd (authenticate (Some "x") (Some "y") init)) = false.
Proof.
  destruct (login_rejected (Some "x") (Some "y") init) as (H1 & _ & _ & H2).
  - intros [H _]. discriminate H.
  - split; [apply H1; vm_compute; discriminate | apply H2; reflexivity].
Defined.

(** C5 (as stated) fails: a login of 102400 characters makes a form longer
    than the body parser's limit; the request is refused with a 413 error
    and the rejection carries no [invalid_grant] response. *)
Lemma long_login_refused :
  (102400 < form_size (Some long_login) (Some "y"))%Z
  /\ authenticate (Some long_login) (Some "y") init
     = (Rejected (HandlerThrew PayloadTooLargeError), init)
  /\ ~ login_as_stated.
Proof.
  assert (Hrun : authenticate (Some long_login) (Some "y") init
                 = (Rejected (HandlerThrew PayloadTooLargeError), init))
    by (vm_compute; reflexivity).
  split; [by vm_compute |]. split; [exact Hrun |].
  intros H. specialize (H (Some long_login) (Some "y") init).
  rewrite Hrun in H. assert (Hne : ~ (Some long_login = Some "login"
                                       /\ Some "y" = Some "password"))
    by (intros [_ Hy]; discriminate Hy).
  specialize (H Hne). discriminate H.
Qed.

(** C6 (as amended). Request decoration only reads the stored token: its
    result is determined by [accessToken] and it returns no new state.  It
    sets an [Authorization] header in every case: [Bearer <token>] when the
    session holds a token string, and [Bearer null] when the session is
    anonymous; the method, the URL and the other headers of the request are
    kept. *)
Theorem decorate_attaches_bearer (s : app) (x : xhr) :
  (forall t, accessToken s = VString t ->
     exists x', decorate s x = Normal x' /\ with_bearer t x x')
  /\ (reachable s -> isAuthenticated s = false ->
      exists x', decorate s x = Normal x' /\ with_bearer "null" x x')
  /\ (forall s2, accessToken s2 = accessToken s -> decorate s2 x = decorate s x).
Proof.
  split; [| split].
  - intros t E. apply decorate_bearer. by rewrite E.
  - intros Hr Ha. apply decorate_bearer.
    by rewrite (reachable_anonymous s Hr Ha).
  - intros s2 E. unfold decorate, headers. by rewrite E.
Qed.

Lemma decorate_attaches_bearer_witness :
  (exists x', decorate logged_in get_codes = Normal x'
              /\ with_bearer "some bs" get_codes x')
  /\ (exists x', decorate init get_codes = Normal x'
                 /\ with_bearer "null" get_codes x').
Proof.
  split.
  - apply (decorate_attaches_bearer logged_in get_codes). reflexivity.
  - apply (decorate_attaches_bearer init get_codes).
    + apply reach_init.
    + reflexivity.
Defined.

(** C6 (as stated) fails: decorating a request of the initial, anonymous
    session does not return the request unmodified, it adds
    [Authorization: Bearer null]. *)
Lemma decorate_anonymous_modifies :
  isAuthenticated init = false
  /\ requestHeaders get_codes !! "authorization" = None
  /\ decorate init get_codes
     = Normal (setRequestHeader "Authorization" "Bearer null" get_codes)
  /\ requestHeaders (setRequestHeader "Authorization" "Bearer null" get_codes)
       !! "authorization" = Some "Bearer null"
  /\ ~ decorate_as_stated.
Proof.
  split; [reflexivity |]. split; [apply lookup_empty |]. split; [reflexivity |].
  split.
  { unfold setRequestHeader. simpl. change (lower "Authorization") with "authorization".
    apply lookup_insert_eq. }
  intros H. destruct (H init get_codes) as [_ Hanon].
  specialize (Hanon eq_refl).
  rewrite (decorate_text init get_codes "null" eq_refl) in Hanon.
  assert (Hx : setRequestHeader "Authorization" ("Bearer " +:+ "null") get_codes = get_codes)
    by congruence.
  apply (f_equal (fun r => requestHeaders r !! "authorization")) in Hx.
  unfold setRequestHeader, get_codes in Hx. simpl in Hx.
  change (lower "Authorization") with "authorization" in Hx.
  rewrite lookup_insert_eq, lookup_empty in Hx. discriminate Hx.
Qed.




(** C8 (as amended). Storing an empty token does not fail: when the identity
    endpoint answers 200 with an empty [access_token], [authenticate]
    resolves and the empty string is stored; the session is then not
    authenticated. *)
Theorem empty_token_is_stored
    (endpoint : arrival -> completion response)
    (login password : option string) (fields : list (string * value)) (s : app) :
  endpoint (token_request login password) = Normal (send 200 (VObject fields)) ->
  get_field fields "access_token" = VString "" ->
  authenticate_then (VObject fields) s = (Resolved tt, set_accessToken (VString "") s)
  /\ authenticate_with endpoint login password s
     = (Resolved tt, set_accessToken (VString "") s)
  /\ accessToken (snd (authenticate_with endpoint login password s)) = VString ""
  /\ isAuthenticated (snd (authenticate_with endpoint login password s)) = false.
Proof.
  intros He Hf.
  assert (Hthen : authenticate_then (VObject fields) s
                  = (Resolved tt, set_accessToken (VString "") s))
    by (unfold authenticate_then; simpl; by rewrite Hf).
  assert (Hwith : authenticate_with endpoint login password s
                  = (Resolved tt, set_accessToken (VString "") s)).
  { unfold authenticate_with. rewrite He. cbn [ajax send res_status is_success].
    change (is_success 200) with true. cbv iota.
    unfold authenticate_then.
    rewrite (get_prop_received (send 200 (VObject fields)) fields _ eq_refl eq_refl).
    by rewrite Hf. }
  rewrite Hwith. by repeat split.
Qed.

Lemma empty_token_is_stored_witness :
  authenticate_with empty_token_endpoint (Some "login") (Some "password") init
  = (Resolved tt, set_accessToken (VString "") init).
Proof.
  apply (empty_token_is_stored empty_token_endpoint (Some "login") (Some "password")
           [("access_token", VString "")] init); reflexivity.
Defined.

(** C8 (as stated) fails: the callback that stores an empty token resolves
    and changes the state, it raises no error. *)
Lemma empty_token_no_error :
  authenticate_then (VObject [("access_token", VString "")]) init
  = (Resolved tt, set_accessToken (VString "") init)
  /\ ~ empty_token_as_stated.
Proof.
  split; [reflexivity |].
  intros H. destruct (H init) as [e He]. discriminate He.
Qed.

(** C9 (as amended). Logout is idempotent: after each of two successive
    calls of [invalidate] the session is anonymous, and the second call
    changes nothing.  No call has any other effect: the code sends no
    notification at all. *)
Theorem invalidate_idempotent (s : app) :
  isAuthenticated (invalidate s) = false
  /\ isAuthenticated (invalidate (invalidate s)) = false
  /\ accessToken (invalidate s) = VNull
  /\ invalidate (invalidate s) = invalidate s
  /\ effects (invalidate s) = effects s
  /\ effects (invalidate (invalidate s)) = effects s.
Proof. by repeat split. Qed.

(** C9 (as stated) fails: two logouts of an authenticated session produce
    no notification, not exactly one. *)
Lemma invalidate_notifies_nobody :
  isAuthenticated logged_in = true
  /\ effects (invalidate (invalidate logged_in)) = effects logged_in
  /\ ~ logout_as_stated.
Proof.
  split; [reflexivity |]. split; [reflexivity |].
  intros H. destruct (H logged_in) as (_ & _ & Hev).
  destruct (Hev eq_refl) as [e He]. discriminate He.
Qed.

(** C10. After [invalidate] the token is [null]; the adapter's headers are
    [Authorization: Bearer null] and every decorated request carries that
    header; the codes endpoint answers 401 to every request carrying it; so
    the adapter's request of a logged-out client is answered 401 and never
    obtains the codes, and a visit of the secret page that has to wait for
    that request ends in the redirect to [/login]. *)
Theorem logged_out_never_gets_codes (s : app) (x : xhr) (base : gmap string string) :
  let s' := invalidate s in
  accessToken s' = VNull
  /\ headers s' = Normal [("Authorization", "Bearer null")]
  /\ (exists x', decorate s' x = Normal x' /\ with_bearer "null" x x')
  /\ (forall req, req_headers req !! "authorization" = Some "Bearer null" ->
        codes_handler req = {| res_status := 401; res_body := VString "Unauthorized" |}
        /\ res_body (codes_handler req) <> codes_payload)
  /\ fetch base s'
     = Normal (Rejected (HttpError {| res_status := 401;
                                      res_body := VString "Unauthorized" |}))
  /\ (store s = None -> visit_secret base s' = (None, transitionTo "/login" s')).
Proof.
  intros s'. subst s'. split; [reflexivity |]. split; [reflexivity |].
  split; [by apply decorate_bearer |].
  assert (Hfetch : fetch base (invalidate s)
                   = Normal (Rejected (HttpError unauthorized)))
    by (rewrite (fetch_text base (invalidate s) "null" eq_refl); reflexivity).
  split; [| split; [exact Hfetch |]].
  - intros req Hreq. apply codes_handler_rejects. rewrite Hreq. discriminate.
  - intros Hstore. unfold visit_secret, model. cbn [invalidate set_accessToken store].
    rewrite Hstore. fold (invalidate s). by rewrite Hfetch.
Qed.

Lemma logged_out_never_gets_codes_witness :
  codes_handler {| req_headers := {[ "authorization" := "Bearer null" ]}; req_body := [] |}
  = {| res_status := 401; res_body := VString "Unauthorized" |}
  /\ visit_secret ∅ (invalidate logged_in)
     = (None, transitionTo "/login" (invalidate logged_in)).
Proof.
  destruct (logged_out_never_gets_codes logged_in get_codes ∅)
    as (_ & _ & _ & Hreq & _ & Hv).
  split; [| apply Hv; reflexivity].
  apply (Hreq {| req_headers := {[ "authorization" := "Bearer null" ]}; req_body := [] |}).
  reflexivity.
Defined.

(** ** Further properties of the code *)

(** *** String conversion and the token endpoint *)

Section Conversions.

Implicit Types (v x : value) (l rest : list value) (lit : string).

Lemma value_ind_nested (P : value -> Prop) :
  P VUndefined -> P VNull -> (forall s, P (VString s)) ->
  (forall l, Forall P l -> P (VArray l)) ->
  (forall fields, P (VObject fields)) ->
  forall v, P v.
Proof.
  intros Hu Hn Hs Ha Ho. fix IH 1. intros [| |s|l|fields].
  - exact Hu.
  - exact Hn.
  - apply Hs.
  - apply Ha. induction l as [|x l IHl]; constructor; [apply IH | exact IHl].
  - apply Ho.
Qed.

Lemma to_string_cons x rest :
  to_string (VArray (x :: rest))
  = s ← element_string x;
    match rest with
    | [] => Normal s
    | _ :: _ => r ← to_string (VArray rest); Normal (s +:+ "," +:+ r)
    end.
Proof. reflexivity. Qed.

Lemma to_string_throw v (e : exn) :
  to_string v = Throw e <-> e = TypeError /\ poisoned v = true.
Proof.
  revert e. induction v as [| |s|l Hl|fields] using value_ind_nested; intros e;
    try (simpl; split; [discriminate | intros [_ ?]; discriminate]).
  - induction Hl as [|x rest Hx _ IH].
    + simpl. split; [discriminate | intros [_ ?]; discriminate].
    + rewrite to_string_cons.
      change (poisoned (VArray (x :: rest)))
        with (poisoned x || poisoned (VArray rest)).
      assert (He : forall e', element_string x = Throw e'
                              <-> e' = TypeError /\ poisoned x = true)
        by (destruct x; try exact Hx; intros e'; simpl;
            (split; [discriminate | intros [_ ?]; discriminate])).
      remember (to_string (VArray rest)) as tail_string eqn:Htail.
      remember (poisoned (VArray rest)) as tail_poisoned eqn:Hpoisoned.
      destruct (element_string x) as [sx|ex]; unfold mbind, completion_bind.
      * assert (poisoned x = false) as ->.
        { destruct (poisoned x); [| done].
          destruct (He TypeError) as [_ Habsurd]. by specialize (Habsurd (conj eq_refl eq_refl)). }
        rewrite orb_false_l.
        destruct rest as [|y rest].
        { subst. split; [discriminate | intros [_ ?]; discriminate]. }
        destruct tail_string as [r|e']; [| apply IH].
        rewrite <- IH. split; discriminate.
      * destruct (He ex) as [[-> ->] _]; [done |].
        split; [by intros [= <-] | by intros [-> _]].
  - simpl. destruct (has_own fields "toString").
    + split; [by intros [= <-] | by intros [-> _]].
    + split; [discriminate | intros [_ ?]; discriminate].
Qed.

Lemma to_string_throws v :
  to_string v = Throw TypeError <-> poisoned v = true.
Proof. rewrite to_string_throw. split; [by intros [_ H] | by intros H]. Qed.

Lemma to_string_nest n s : to_string (nest n (VString s)) = Normal s.
Proof.
  induction n as [|n IH]; [reflexivity |].
  simpl nest. rewrite to_string_cons.
  assert (element_string (nest n (VString s)) = Normal s) as ->; [| reflexivity].
  destruct n; [reflexivity | exact IH].
Qed.

Lemma reads_as_nest n s : reads_as (nest n (VString s)) s.
Proof.
  pose proof (to_string_nest n s) as H. by destruct n.
Qed.

Lemma reads_as_not_poisoned v lit : reads_as v lit -> poisoned v = false.
Proof.
  intros Hr. destruct (poisoned v) eqn:Hp; [| done].
  apply to_string_throws in Hp.
  destruct v; unfold reads_as in Hr; try contradiction; congruence.
Qed.

Lemma loose_eq_string_throw v lit (e : exn) :
  loose_eq_string v lit = Throw e <-> e = TypeError /\ poisoned v = true.
Proof.
  rewrite <- to_string_throw.
  destruct v as [| |s|l|fields]; unfold loose_eq_string;
    try (simpl; split; discriminate).
  - destruct (to_string (VArray l)) as [s|e']; simpl;
      [split; discriminate | split; congruence].
  - destruct (to_string (VObject fields)) as [s|e']; simpl;
      [split; discriminate | split; congruence].
Qed.

Lemma loose_eq_string_cases v lit :
  (loose_eq_string v lit = Normal true /\ reads_as v lit)
  \/ (loose_eq_string v lit = Normal false /\ ~ reads_as v lit /\ poisoned v = false)
  \/ (loose_eq_string v lit = Throw TypeError /\ poisoned v = true).
Proof.
  destruct (loose_eq_string v lit) as [[|]|e] eqn:E.
  - left. split; [done |]. by apply loose_eq_string_true.
  - right; left. split; [done |]. split.
    + intros H%loose_eq_string_true. congruence.
    + destruct (poisoned v) eqn:Hp; [| done].
      destruct (loose_eq_string_throw v lit TypeError) as [_ H].
      specialize (H (conj eq_refl Hp)). congruence.
  - right; right. apply loose_eq_string_throw in E as [-> Hp]. by split.
Qed.

End Conversions.

(** X1. [POST /token] throws (no answer is sent by the handler) exactly when
    the string conversion of a compared field throws: the username is an
    object with an own [toString] property or an array holding one, or the
    username passes and the password is such a value.  It never throws on
    the fields the login form sends. *)
Theorem token_handler_throws (req : request) :
  let u := get_field (req_body req) "username" in
  let p := get_field (req_body req) "password" in
  (token_handler req = Throw TypeError
   <-> poisoned u = true \/ (reads_as u "login" /\ poisoned p = true))
  /\ (forall e, token_handler req = Throw e -> e = TypeError)
  /\ (forall login password e,
        token_handler (parsed (token_request login password)) <> Throw e).
Proof.
  intros u p.
  assert (Hiff : token_handler req = Throw TypeError
                 <-> poisoned u = true \/ (reads_as u "login" /\ poisoned p = true));
    [| split; [exact Hiff | split]].
  - unfold token_handler. fold u p.
    destruct (loose_eq_string_cases u "login")
      as [[-> Hu]|[(-> & Hu & Hpu)|[-> Hpu]]]; simpl.
    + pose proof (reads_as_not_poisoned u "login" Hu) as Hnp.
      destruct (loose_eq_string_cases p "password")
        as [[-> Hp]|[(-> & Hp & Hpp)|[-> Hpp]]]; simpl.
      * pose proof (reads_as_not_poisoned p "password" Hp).
        split; [discriminate | intros [?|[_ ?]]; congruence].
      * split; [discriminate | intros [?|[_ ?]]; congruence].
      * split; [by right | done].
    + split; [discriminate | intros [?|[? _]]; [congruence | contradiction]].
    + split; [by left | done].
  - intros e. unfold token_handler. fold u p.
    destruct (loose_eq_string u "login") as [[|]|eu] eqn:Eu; simpl;
      [| discriminate | apply loose_eq_string_throw in Eu as [-> _]; congruence].
    destruct (loose_eq_string p "password") as [[|]|ep] eqn:Ep; simpl;
      [discriminate | discriminate
       | apply loose_eq_string_throw in Ep as [-> _]; congruence].
  - intros login password e. by rewrite token_handler_form.
Qed.

(** X2. [&&] short-circuits: when the username does not pass (and its
    conversion does not throw), the answer is 400 [invalid_grant] whatever the
    password is, even a password whose conversion would throw. *)
Theorem token_handler_short_circuit (req : request) :
  poisoned (get_field (req_body req) "username") = false ->
  ~ reads_as (get_field (req_body req) "username") "login" ->
  token_handler req
  = Normal {| res_status := 400;
              res_body := VObject [("error", VString "invalid_grant")] |}.
Proof.
  intros Hnp Hnr. unfold token_handler.
  destruct (loose_eq_string_cases (get_field (req_body req) "username") "login")
    as [[_ Hu]|[(-> & _ & _)|[_ Hpu]]]; [contradiction | reflexivity | congruence].
Qed.

Lemma token_handler_short_circuit_witness :
  token_handler (token_body (VString "x") (VObject [("toString", VString "y")]))
  = Normal {| res_status := 400;
              res_body := VObject [("error", VString "invalid_grant")] |}.
Proof.
  apply (token_handler_short_circuit
           (token_body (VString "x") (VObject [("toString", VString "y")]))).
  - reflexivity.
  - simpl. discriminate.
Defined.

(** X3. The loose comparison sees through any nesting of one-element
    arrays: a username ["login"] wrapped in [n] arrays and a password
    "password" wrapped in [m] arrays are answered 200 with the token, for
    every [n] and [m]. *)
Theorem token_handler_nested_arrays (n m : nat) :
  token_handler (token_body (nest n (VString "login")) (nest m (VString "password")))
  = Normal {| res_status := 200;
              res_body := VObject [("access_token", VString "some bs")] |}.
Proof.
  apply token_handler_ok. split; apply reads_as_nest.
Qed.

(** *** The adapter *)

Section Adapter.

Implicit Types (s : app) (x : xhr) (base : gmap string string).

Lemma decorate_throws s x e :
  to_string (accessToken s) = Throw e -> decorate s x = Throw e.
Proof. intros H. unfold decorate, headers. by rewrite H. Qed.

Lemma decorate_inv s x x' :
  decorate s x = Normal x' ->
  exists t, to_string (accessToken s) = Normal t
            /\ x' = setRequestHeader "Authorization" ("Bearer " +:+ t) x.
Proof.
  destruct (to_string (accessToken s)) as [t|e] eqn:E.
  - rewrite (decorate_text s x t E). intros [= <-]. by exists t.
  - by rewrite (decorate_throws s x e E).
Qed.

Lemma setRequestHeader_twice (name v w : string) x :
  setRequestHeader name v (setRequestHeader name w x) = setRequestHeader name v x.
Proof. unfold setRequestHeader. simpl. f_equal. apply insert_insert_eq. Qed.

Lemma fetch_accepted base s :
  token_accepted s = true -> fetch base s = Normal (Resolved codes_payload).
Proof.
  unfold token_accepted. destruct (to_string (accessToken s)) as [t|e] eqn:E;
    [| discriminate].
  intros Ht. by rewrite (fetch_text base s t E), Ht.
Qed.

Lemma fetch_refused base s :
  token_accepted s = false ->
  fetch base s = Normal (Rejected (HttpError unauthorized))
  \/ fetch base s = Throw TypeError.
Proof.
  unfold token_accepted. destruct (to_string (accessToken s)) as [t|e] eqn:E.
  - intros Ht. left. by rewrite (fetch_text base s t E), Ht.
  - intros _. right. apply to_string_throw in E as Hthrow. destruct Hthrow as [-> _].
    by apply fetch_throws.
Qed.

Lemma visit_secret_settled base s :
  visit_secret base s = visit_secret_result s.
Proof.
  unfold visit_secret, visit_secret_result, model.
  destruct (token_accepted s) eqn:Ha.
  - rewrite (fetch_accepted base s Ha). by destruct (store s).
  - destruct (fetch_refused base s Ha) as [-> | ->]; by destruct (store s).
Qed.

Lemma trim_right_whitespace (w : string) :
  whitespace_only w = true -> trim_right w = "".
Proof.
  induction w as [|c w IH]; [done |]. simpl.
  intros [Hc Hw]%andb_prop. by rewrite (IH Hw), Hc.
Qed.

Lemma trim_right_app (v w : string) :
  whitespace_only w = true -> trim_right (v +:+ w) = trim_right v.
Proof.
  intros Hw. induction v as [|c v IH]; simpl.
  - by apply trim_right_whitespace.
  - by rewrite IH.
Qed.

Lemma token_accepted_trailing (w : string) s :
  whitespace_only w = true ->
  token_accepted (set_accessToken (VString ("some bs" +:+ w)) s) = true.
Proof.
  intros Hw. unfold token_accepted. cbn [set_accessToken accessToken to_string].
  apply bool_decide_eq_true.
  change ("Bearer " +:+ ("some bs" +:+ w)) with ("Bearer some bs" +:+ w).
  unfold normalize.
  change (trim_left ("Bearer some bs" +:+ w)) with ("Bearer some bs" +:+ w).
  by rewrite (trim_right_app _ w Hw).
Qed.

Lemma reachable_store s :
  reachable s -> store s = None \/ store s = Some codes_payload.
Proof.
  induction 1 as [|login password s _ IH|s _ IH|base s _ IH|s _ IH].
  - by left.
  - rewrite authenticate_outcome.
    destruct (limit <? form_size login password)%Z; [exact IH |].
    by case_bool_decide.
  - exact IH.
  - rewrite visit_secret_settled. unfold visit_secret_result.
    destruct (store s) as [cached|] eqn:Hs, (token_accepted s); simpl; auto.
    by rewrite Hs.
  - exact IH.
Qed.

Lemma reachable_accepted s :
  reachable s -> token_accepted s = isAuthenticated s.
Proof.
  intros Hr. unfold token_accepted, isAuthenticated.
  by destruct (reachable_token s Hr) as [-> | ->].
Qed.

End Adapter.

(** X4. The adapter's [headers], and with it the decoration of a request,
    throw exactly when the string conversion of the stored token throws (the
    token is an object with an own [toString] property, or an array holding
    one); the adapter's request then fails before it is sent, and a visit of
    the secret page that has to wait for it ends in the redirect to
    [/login]. *)
Theorem headers_throws (s : app) (x : xhr) (base : gmap string string) :
  (headers s = Throw TypeError <-> poisoned (accessToken s) = true)
  /\ (decorate s x = Throw TypeError <-> poisoned (accessToken s) = true)
  /\ (poisoned (accessToken s) = true ->
      fetch base s = Throw TypeError
      /\ (store s = None -> visit_secret base s = (None, transitionTo "/login" s))).
Proof.
  rewrite <- to_string_throws. unfold visit_secret, model, fetch, decorate, headers.
  destruct (to_string (accessToken s)) as [t|e]; unfold mbind, completion_bind.
  - split; [split; discriminate |]. split; [split; discriminate | discriminate].
  - split; [split; congruence |]. split; [split; congruence |].
    intros [= ->]. split; [reflexivity |]. by intros ->.
Qed.

Lemma headers_throws_witness :
  visit_secret ∅ (set_accessToken (VObject [("toString", VString "x")]) init)
  = (None, transitionTo "/login"
             (set_accessToken (VObject [("toString", VString "x")]) init)).
Proof.
  apply (headers_throws
           (set_accessToken (VObject [("toString", VString "x")]) init) get_codes ∅);
    reflexivity.
Defined.

(** X5. Decoration replaces the [Authorization] header an earlier decoration
    left on the request: decorating an already decorated request gives the
    same result as decorating the original one, so no request keeps a token
    of an earlier session state. *)
Theorem decorate_replaces_stale (s1 s2 : app) (x x1 : xhr) :
  decorate s1 x = Normal x1 -> decorate s2 x1 = decorate s2 x.
Proof.
  intros (t1 & _ & ->)%decorate_inv.
  destruct (to_string (accessToken s2)) as [t2|e] eqn:E.
  - rewrite !(decorate_text s2 _ t2 E). f_equal. apply setRequestHeader_twice.
  - by rewrite !(decorate_throws s2 _ e E).
Qed.

Lemma decorate_replaces_stale_witness :
  decorate (invalidate logged_in)
    (setRequestHeader "Authorization" "Bearer some bs" get_codes)
  = decorate (invalidate logged_in) get_codes.
Proof.
  apply (decorate_replaces_stale logged_in (invalidate logged_in) get_codes).
  reflexivity.
Defined.

(** *** The routes *)

(** X6. What entering the secret route does, in any state.  While the store
    holds no codes the page gets the codes exactly when the token is
    accepted, that is when the header built from it, without the whitespace
    around it, is [Bearer some bs]; otherwise it gets nothing and the
    transition to [/login] is requested.  Once the store holds codes the page
    gets those, whatever the token, and nothing is requested; an accepted
    token reloads the store.  A token "some bs" followed by whitespace is
    accepted.  The headers the request carried before the adapter's do not
    matter. *)
Theorem visit_secret_cases (base : gmap string string) (s : app) :
  visit_secret base s
  = match store s, token_accepted s with
    | None, true => (Some codes_payload, push codes_payload s)
    | None, false => (None, transitionTo "/login" s)
    | Some cached, true => (Some cached, push codes_payload s)
    | Some cached, false => (Some cached, s)
    end
  /\ (forall w, whitespace_only w = true ->
        token_accepted (set_accessToken (VString ("some bs" +:+ w)) s) = true).
Proof.
  split; [apply visit_secret_settled |].
  intros w Hw. by apply token_accepted_trailing.
Qed.

Lemma visit_secret_cases_witness :
  visit_secret {[ "authorization" := "Bearer some bs" ]} init
  = (None, transitionTo "/login" init)
  /\ token_accepted (set_accessToken (VString "some bs  ") init) = true.
Proof.
  split.
  - apply (visit_secret_cases {[ "authorization" := "Bearer some bs" ]} init).
  - destruct (visit_secret_cases ∅ init) as [_ Htrailing].
    apply (Htrailing "  "). reflexivity.
Defined.

(** X7. In every reachable state: an authenticated visit of the secret route
    gets the codes and requests no transition; an anonymous visit gets
    nothing and requests the transition to [/login] as long as the store
    holds no codes; once a visit has loaded the codes, a later visit gets them
    from the store even after a logout, and requests nothing.  So the page
    gets the codes if and only if the session is authenticated or the codes
    were loaded before. *)
Theorem visit_secret_reachable (base : gmap string string) (s : app) :
  reachable s ->
  (isAuthenticated s = true ->
   visit_secret base s = (Some codes_payload, push codes_payload s))
  /\ (isAuthenticated s = false -> store s = None ->
      visit_secret base s = (None, transitionTo "/login" s))
  /\ (isAuthenticated s = false -> store s <> None ->
      visit_secret base s = (Some codes_payload, s))
  /\ (fst (visit_secret base s) = Some codes_payload
      <-> isAuthenticated s = true \/ store s <> None).
Proof.
  intros Hr. rewrite visit_secret_settled. unfold visit_secret_result.
  rewrite (reachable_accepted s Hr).
  destruct (reachable_store s Hr) as [-> | ->], (isAuthenticated s); simpl.
  - split; [done |]. split; [done |]. split; [done |]. split; [by left | done].
  - split; [done |]. split; [done |]. split; [done |].
    split; [discriminate | by intros [?|?]].
  - split; [done |]. split; [done |]. split; [done |]. split; [by left | done].
  - split; [done |]. split; [done |]. split; [done |]. split; [by right | done].
Qed.

Lemma visit_secret_reachable_witness :
  visit_secret ∅ (invalidate (snd (visit_secret ∅ logged_in)))
  = (Some codes_payload, invalidate (snd (visit_secret ∅ logged_in))).
Proof.
  apply (visit_secret_reachable ∅ (invalidate (snd (visit_secret ∅ logged_in)))).
  - apply reach_invalidate, reach_visit.
    apply (reach_authenticate (Some "login") (Some "password") init), reach_init.
  - reflexivity.
  - discriminate.
Defined.

(** *** The session service *)

Section Service.

Implicit Types (s : app) (login password : option string).

Lemma visit_secret_effects base s :
  effects (snd (visit_secret base s)) = effects s
  \/ effects (snd (visit_secret base s)) = (effects s ++ [TransitionTo "/login"])%list.
Proof.
  rewrite visit_secret_settled. unfold visit_secret_result.
  destruct (store s), (token_accepted s); simpl; auto.
Qed.

Lemma reachable_effects s :
  reachable s -> Forall (eq (TransitionTo "/login")) (effects s).
Proof.
  induction 1 as [|login password s _ IH|s _ IH|base s _ IH|s _ IH].
  - constructor.
  - rewrite authenticate_outcome.
    destruct (limit <? form_size login password)%Z; [exact IH |].
    by case_bool_decide.
  - exact IH.
  - destruct (visit_secret_effects base s) as [-> | ->]; [exact IH |].
    apply Forall_app. split; [exact IH | by constructor].
  - simpl. apply Forall_app. split; [exact IH | by constructor].
Qed.

End Service.

(** X8. In every reachable state the stored token is [null] or the server's
    "some bs", the store holds nothing or the server's codes, every
    transition the application has requested goes to [/login], and the
    adapter's [headers] are defined (their computation does not throw). *)
Theorem reachable_invariants (s : app) :
  reachable s ->
  (accessToken s = VNull \/ accessToken s = VString "some bs")
  /\ (store s = None \/ store s = Some codes_payload)
  /\ Forall (eq (TransitionTo "/login")) (effects s)
  /\ exists hs, headers s = Normal hs.
Proof.
  intros Hr. split; [by apply reachable_token |].
  split; [by apply reachable_store |].
  split; [by apply reachable_effects |].
  unfold headers. destruct (reachable_token s Hr) as [-> | ->]; simpl; eauto.
Qed.

Lemma reachable_invariants_witness :
  Forall (eq (TransitionTo "/login")) (effects (snd (visit_secret ∅ init))).
Proof.
  apply (reachable_invariants (snd (visit_secret ∅ init))).
  apply reach_visit, reach_init.
Defined.

(** X9. A login changes at most the token: it requests no transition, its
    outcome does not depend on the state it starts from, repeating it gives
    the same outcome and state, and a logout after it gives the same state as
    a logout without it. *)
Theorem authenticate_composes (login password : option string) (s : app) :
  effects (snd (authenticate login password s)) = effects s
  /\ (forall s2, fst (authenticate login password s2)
                 = fst (authenticate login password s))
  /\ authenticate login password (snd (authenticate login password s))
     = authenticate login password s
  /\ invalidate (snd (authenticate login password s)) = invalidate s.
Proof.
  split; [| split; [| split]].
  - rewrite authenticate_outcome.
    destruct (limit <? form_size login password)%Z; [done | by case_bool_decide].
  - intros s2. rewrite !authenticate_outcome.
    destruct (limit <? form_size login password)%Z; [done | by case_bool_decide].
  - rewrite !authenticate_outcome.
    destruct (limit <? form_size login password)%Z; [done | by case_bool_decide].
  - rewrite authenticate_outcome.
    destruct (limit <? form_size login password)%Z; [done | by case_bool_decide].
Qed.

(** X10. Against any identity endpoint, a login that is rejected, for
    whatever reason (an answer outside the success range, an error that
    reached Express, a callback that threw, as it does on an answer without
    content), leaves the application state unchanged; a login that resolves
    was answered with a success status and stored the [access_token]
    property of what the browser received of that answer; in both cases no
    transition is requested and the store is not touched. *)
Theorem authenticate_with_frame
    (endpoint : arrival -> completion response)
    (login password : option string) (s : app) :
  let result := authenticate_with endpoint login password s in
  effects (snd result) = effects s
  /\ store (snd result) = store s
  /\ (forall e, fst result = Rejected e -> snd result = s)
  /\ (fst result = Resolved tt ->
      exists r, endpoint (token_request login password) = Normal r
                /\ is_success (res_status r) = true
                /\ get_prop (received r) "access_token"
                   = Normal (accessToken (snd result))).
Proof.
  unfold authenticate_with, ajax, authenticate_then.
  destruct (endpoint (token_request login password)) as [r|e0]; cbn zeta.
  - destruct (is_success (res_status r)) eqn:Hok.
    + destruct (get_prop (received r) "access_token") as [token|e1] eqn:Hp; simpl.
      * split; [done |]. split; [done |]. split; [discriminate |]. intros _. by exists r.
      * split; [done |]. split; [done |]. split; [done | discriminate].
    + simpl. split; [done |]. split; [done |]. split; [done | discriminate].
  - simpl. split; [done |]. split; [done |]. split; [done | discriminate].
Qed.

Lemma authenticate_with_frame_witness :
  snd (authenticate_with route_token (Some "x") (Some "y") logged_in) = logged_in.
Proof.
  destruct (authenticate_with_frame route_token (Some "x") (Some "y") logged_in)
    as (_ & _ & Hrejected & _).
  apply (Hrejected (HttpError invalid_grant)). reflexivity.
Defined.

(** X11. Against any identity endpoint whose successful answers carry an
    [access_token] that is a string, [null] or missing, a login keeps the
    invariant of the session: afterwards the token is a non-empty string if
    and only if [isAuthenticated] is true.  An empty token is stored, and the
    session is then not authenticated. *)
Theorem login_keeps_invariant
    (endpoint : arrival -> completion response)
    (login password : option string) (s : app) :
  (forall req r fields,
     endpoint req = Normal r -> is_success (res_status r) = true ->
     res_body r = VObject fields ->
     get_field fields "access_token" = VNull
     \/ is_text (get_field fields "access_token")) ->
  session_invariant s ->
  let s1 := snd (authenticate_with endpoint login password s) in
  token_nonempty (accessToken s1) <-> isAuthenticated s1 = true.
Proof.
  intros Hendpoint Hs. by apply authenticate_with_invariant.
Qed.

Lemma login_keeps_invariant_witness :
  let s1 := snd (authenticate_with empty_token_endpoint
                   (Some "login") (Some "password") init) in
  token_nonempty (accessToken s1) <-> isAuthenticated s1 = true.
Proof.
  apply (login_keeps_invariant empty_token_endpoint (Some "login") (Some "password") init).
  - intros req r fields [= <-] _ [= <-]. right. exact I.
  - split; [intros (t & [=] & _) | discriminate].
Defined.

(** *** The login page *)

(** X12. The [authenticate] action of the login page, for a form within the
    body parser's limit of 102400 bytes, shows "Success! Click the top link!"
    exactly when the login is "login" and the password is "password", and
    then the token "some bs" is stored; for every other such input it shows
    "Error obtaining token: " followed by the text of the endpoint's
    [{error: "invalid_grant"}] answer.  For a longer form it shows
    "Error obtaining token: " followed by the page Express sends for the
    body parser's 413 error.  Whenever an error is shown the state is
    unchanged. *)
Theorem login_page_alert
    (stringify : value -> string) (error_page : exn -> string)
    (login password : option string) (s : app) :
  let shown := LoginPage.authenticate stringify error_page login password s in
  shown
  = (if (102400 <? form_size login password)%Z
     then ("Error obtaining token: " +:+ error_page PayloadTooLargeError, s)
     else if bool_decide (login = Some "login" /\ password = Some "password")
          then ("Success! Click the top link!", set_accessToken (VString "some bs") s)
          else ("Error obtaining token: "
                  +:+ stringify (VObject [("error", VString "invalid_grant")]), s))
  /\ (fst shown = "Success! Click the top link!"
      <-> login = Some "login" /\ password = Some "password").
Proof.
  unfold LoginPage.authenticate. rewrite authenticate_outcome.
  change limit with 102400%Z.
  destruct (102400 <? form_size login password)%Z eqn:Hsize; cbn [fst].
  - split; [reflexivity |].
    change ("Error obtaining token: "
              +:+ LoginPage.err_responseText stringify error_page
                    (HandlerThrew PayloadTooLargeError))
      with (String "E" ("rror obtaining token: " +:+ error_page PayloadTooLargeError)).
    split; [discriminate |]. intros [-> ->]. discriminate Hsize.
  - case_bool_decide as H; cbn [fst].
    + split; [reflexivity |]. by split.
    + split; [reflexivity |].
      change ("Error obtaining token: "
                +:+ LoginPage.err_responseText stringify error_page
                      (HttpError invalid_grant))
        with (String "E" ("rror obtaining token: "
                            +:+ LoginPage.responseText stringify invalid_grant)).
      split; [discriminate | contradiction].
Qed.

(** *** The two endpoints together *)

(** X13. The server never issues a token it would refuse: whenever
    [POST /token] answers with a success status, whatever the body that was
    accepted, storing the [access_token] the browser receives makes the
    session authenticated, the adapter's request is then answered with the
    codes, and entering the secret route hands codes to the page and
    requests no transition. *)
Theorem issued_token_is_accepted
    (req : request) (r : response) (base : gmap string string) (s : app) :
  token_handler req = Normal r ->
  is_success (res_status r) = true ->
  let s1 := snd (authenticate_then (received r) s) in
  fst (authenticate_then (received r) s) = Resolved tt
  /\ isAuthenticated s1 = true
  /\ fetch base s1 = Normal (Resolved codes_payload)
  /\ visit_secret base s1
     = (Some (default codes_payload (store s)), push codes_payload s1).
Proof.
  intros Hr Hok.
  destruct (token_handler_answers req r Hr) as [-> | ->]; [| discriminate Hok].
  cbn zeta. change (authenticate_then (received token_ok) s)
    with (Resolved tt : outcome unit failure, set_accessToken (VString "some bs") s).
  cbn [fst snd]. split; [reflexivity |]. split; [reflexivity |].
  split; [by apply fetch_accepted |].
  rewrite visit_secret_settled. unfold visit_secret_result.
  cbn [set_accessToken store]. by destruct (store s).
Qed.

Lemma issued_token_is_accepted_witness :
  visit_secret ∅ (snd (authenticate_then (received token_ok) init))
  = (Some codes_payload,
     push codes_payload (snd (authenticate_then (received token_ok) init))).
Proof.
  apply (issued_token_is_accepted array_login token_ok ∅ init); reflexivity.
Defined.
